(** * RSVP reader: the text preprocessor and the playback scheduler

    A shallow embedding of [utils/orp.ts] (module [Orp]), of the playback
    part of [components/RSVP.tsx] (module [RSVP]), of the slider and the
    buttons of [components/RSVPControls.tsx] (module [Controls]) and of the
    effect of [components/WordDisplay.tsx] (module [WordDisplay]).

    Data model.
    - A JavaScript string is a sequence of UTF-16 code units: [jsstring] is
      [list N].  The regular expression [/\s+/] carries no [u] flag, so it works
      on code units as well, and every white-space code point of ECMAScript
      lies in the basic plane.
    - A JavaScript number is an IEEE-754 binary64 value: durations, offsets
      and clock readings are kernel floats ([PrimFloat]), whose [+ - * /]
      round to nearest-even as JavaScript's do.
    - Lengths and indices are [nat].  [word.length] is an exact integer far
      below 2^53, where [Math.floor (n / 2)] and [Math.floor (n / 3)] agree
      with the integer quotients. *)

From Stdlib Require Import String Ascii.
From Stdlib Require Import List Arith NArith ZArith Lia Bool.
From Stdlib Require Import Floats.PrimFloat.
From Stdlib Require Import Numbers.Cyclic.Int63.Uint63.
Import ListNotations.

Set Warnings "-inexact-float".

(** ** JavaScript strings *)

Definition jsstring : Type := list N.

(** An ASCII literal as a JavaScript string. *)
Fixpoint js (s : string) : jsstring :=
  match s with
  | EmptyString => []
  | String c rest => N_of_ascii c :: js rest
  end.
Arguments js s%_string.

(** [WhiteSpace] and [LineTerminator] of ECMAScript: the class [\s] of a
    regular expression, and what [String.prototype.trim] strips. *)
Definition isWhiteSpace (c : N) : bool :=
  ((9 <=? c) && (c <=? 13)            (* TAB, LF, VT, FF, CR *)
   || (c =? 32)                       (* SPACE *)
   || (c =? 160)                      (* NO-BREAK SPACE *)
   || (c =? 5760)                     (* U+1680 *)
   || ((8192 <=? c) && (c <=? 8202))  (* U+2000 .. U+200A *)
   || (c =? 8232) || (c =? 8233)      (* LINE / PARAGRAPH SEPARATOR *)
   || (c =? 8239)                     (* U+202F *)
   || (c =? 8287)                     (* U+205F *)
   || (c =? 12288)                    (* U+3000 *)
   || (c =? 65279))%N.                (* U+FEFF *)

Definition isWord (c : N) : bool := negb (isWhiteSpace c).

Fixpoint dropWhile {A} (p : A -> bool) (l : list A) : list A :=
  match l with
  | [] => []
  | x :: rest => if p x then dropWhile p rest else l
  end.

(** [String.prototype.trim]. *)
Definition trim (s : jsstring) : jsstring :=
  rev (dropWhile isWhiteSpace (rev (dropWhile isWhiteSpace s))).

(** [s.split(/\s+/)].  The string is scanned from the left; [piece] holds the
    code units of the piece being read (latest first) and [inSep] tells that
    the scan is inside a separator, whose greedy match swallows the whole run.
    A separator at either end leaves an empty piece there, and the empty
    string gives one empty piece. *)
Fixpoint split_from (inSep : bool) (piece : jsstring) (s : jsstring)
  : list jsstring :=
  match s with
  | [] => [rev piece]
  | c :: rest =>
      if isWhiteSpace c then
        if inSep then split_from true [] rest
        else rev piece :: split_from true [] rest
      else split_from false (c :: piece) rest
  end.

Definition split_ws (s : jsstring) : list jsstring := split_from false [] s.

(** [s.slice(0, i)], [s.slice(i)] and [s[i] || ''] for an index [i >= 0]. *)
Definition slice_to (s : jsstring) (i : nat) : jsstring := firstn i s.
Definition slice_from (s : jsstring) (i : nat) : jsstring := skipn i s.
Definition charAtOrEmpty (s : jsstring) (i : nat) : jsstring :=
  match nth_error s i with
  | Some c => [c]      (* a one-unit string is truthy *)
  | None => []         (* undefined || '' *)
  end.

(** ** utils/orp.ts *)

Module Orp.

Local Open Scope float_scope.

(** [word[word.length - 1]]: undefined on the empty word (index -1). *)
Definition lastChar (w : jsstring) : option N :=
  match length w with
  | O => None
  | S n => nth_error w n
  end.

Definition calculateORP (w : jsstring) : nat :=
  if Nat.eqb (length w) 0 then 0%nat
  else if Nat.leb (length w) 3 then Nat.div (length w) 2
  else Nat.max 1 (Nat.div (length w) 3).

Definition isSentenceEnd (c : N) : bool :=
  ((c =? 46) || (c =? 33) || (c =? 63))%N.     (* . ! ? *)

Definition isClauseMark (c : N) : bool :=
  ((c =? 44) || (c =? 59) || (c =? 58))%N.     (* , ; : *)

Definition getPunctuationMultiplier (w : jsstring) : float :=
  match lastChar w with
  | Some c =>
      if isSentenceEnd c then 1.3
      else if isClauseMark c then 1.15
      else 1.0
  | None => 1.0
  end.

Record PreprocessedWord : Type := mkWord {
  word : jsstring;
  anchorIndex : nat;
  duration : float;
  beforeText : jsstring;
  anchorChar : jsstring;
  afterText : jsstring;
  beforeOffset : float;
  afterOffset : float
}.

Definition calculateMonospaceCharWidth (fontSize : float) : float :=
  let fontSizePx := fontSize * 16 in
  fontSizePx * 0.6.

(** The body of the [map] callback of [processText]. *)
Definition preprocessWord (baseDuration anchorCharWidth : float)
  (w : jsstring) : PreprocessedWord :=
  let trimmed := trim w in
  let anchorIndex := calculateORP trimmed in
  let multiplier := getPunctuationMultiplier trimmed in
  {| word := trimmed;
     anchorIndex := anchorIndex;
     duration := baseDuration * multiplier;
     beforeText := slice_to trimmed anchorIndex;
     anchorChar := charAtOrEmpty trimmed anchorIndex;
     afterText := slice_from trimmed (anchorIndex + 1);
     beforeOffset := - (anchorCharWidth / 2);
     afterOffset := anchorCharWidth / 2 |}.

Definition nonEmpty (w : jsstring) : bool := Nat.ltb 0 (length w).

(** [processText(text, baseWpm, fontSize)]; the callers of the repository
    pass two arguments and leave [fontSize] to its default, 8. *)
Definition processText (text : jsstring) (baseWpm fontSize : float)
  : list PreprocessedWord :=
  let words := filter nonEmpty (split_ws text) in
  let baseDuration := (60 / baseWpm) * 1000 in
  let charWidth := calculateMonospaceCharWidth fontSize in
  let anchorCharWidth := charWidth in
  map (preprocessWord baseDuration anchorCharWidth) words.

Definition defaultFontSize : float := 8.

Definition calculateIntervalMs (wpm : float) : float := (60 / wpm) * 1000.

(** The record of "reading" at 300 words per minute and the default font
    size, used in the examples. *)
Definition readingRecord : PreprocessedWord :=
  preprocessWord ((60 / 300) * 1000) (calculateMonospaceCharWidth 8)
    (js "reading").

End Orp.

(** ** Texts as tokens and separators

    A text read as the specification words it: leading white space, then
    tokens, each followed by a run of white space, and possibly a last token
    that nothing follows ([tail], empty when the text ends in white space or
    has no token at all). *)

Definition isToken (t : jsstring) : bool :=
  Orp.nonEmpty t && forallb isWord t.

Definition isSeparator (g : jsstring) : bool :=
  Orp.nonEmpty g && forallb isWhiteSpace g.

Definition isItem (p : jsstring * jsstring) : bool :=
  isToken (fst p) && isSeparator (snd p).

Definition layout (lead : jsstring) (items : list (jsstring * jsstring))
  (tail : jsstring) : jsstring :=
  lead ++ concat (map (fun p => fst p ++ snd p) items) ++ tail.

Definition tokensOf (items : list (jsstring * jsstring)) (tail : jsstring)
  : list jsstring :=
  map fst items ++ filter Orp.nonEmpty [tail].

(** ** components/RSVP.tsx: the playback state and its operations *)

Module RSVP.

Import Orp.
Local Open Scope float_scope.

(** [ReadingState] of [types/rsvp.ts]. *)
Inductive ReadingState : Type := idle | playing | paused.

(** The state of the component between two events, once its effects have
    run: the [useState] cells and the refs of the playback loop.  The refs
    [wordsRef], [wpmRef], [isPlayingRef] and [isPausedRef] are copies that the
    effects keep equal to [preprocessedWords], [wpm], [isPlaying] and
    [isPaused], so the loop reads the cells here.  [animationFrameRef] tells
    whether a frame callback is pending ([null] is [false]). *)
Record State : Type := mkState {
  text : jsstring;
  preprocessedWords : list PreprocessedWord;
  currentWord : option PreprocessedWord;
  wpm : float;
  isPlaying : bool;
  isPaused : bool;
  currentWordIndex : nat;
  wordIndexRef : nat;
  lastTimeRef : float;
  animationFrameRef : bool
}.

Definition DEFAULT_WPM : float := 300.

Definition initialState : State :=
  {| text := []; preprocessedWords := []; currentWord := None;
     wpm := DEFAULT_WPM; isPlaying := false; isPaused := false;
     currentWordIndex := 0; wordIndexRef := 0; lastTimeRef := 0;
     animationFrameRef := false |}.

(** Which transport buttons [RSVPControls] offers. *)
Definition readingState (s : State) : ReadingState :=
  if isPaused s then paused
  else if isPlaying s then playing
  else idle.

Definition setPlayback (p q : bool) (s : State) : State :=
  {| text := text s; preprocessedWords := preprocessedWords s;
     currentWord := currentWord s; wpm := wpm s;
     isPlaying := p; isPaused := q;
     currentWordIndex := currentWordIndex s; wordIndexRef := wordIndexRef s;
     lastTimeRef := lastTimeRef s; animationFrameRef := animationFrameRef s |}.

Definition setIndex (ref cell : nat) (s : State) : State :=
  {| text := text s; preprocessedWords := preprocessedWords s;
     currentWord := currentWord s; wpm := wpm s;
     isPlaying := isPlaying s; isPaused := isPaused s;
     currentWordIndex := cell; wordIndexRef := ref;
     lastTimeRef := lastTimeRef s; animationFrameRef := animationFrameRef s |}.

Definition setCurrentWord (w : option PreprocessedWord) (s : State) : State :=
  {| text := text s; preprocessedWords := preprocessedWords s;
     currentWord := w; wpm := wpm s;
     isPlaying := isPlaying s; isPaused := isPaused s;
     currentWordIndex := currentWordIndex s; wordIndexRef := wordIndexRef s;
     lastTimeRef := lastTimeRef s; animationFrameRef := animationFrameRef s |}.

Definition setLastTime (t : float) (s : State) : State :=
  {| text := text s; preprocessedWords := preprocessedWords s;
     currentWord := currentWord s; wpm := wpm s;
     isPlaying := isPlaying s; isPaused := isPaused s;
     currentWordIndex := currentWordIndex s; wordIndexRef := wordIndexRef s;
     lastTimeRef := t; animationFrameRef := animationFrameRef s |}.

Definition setFrame (pending : bool) (s : State) : State :=
  {| text := text s; preprocessedWords := preprocessedWords s;
     currentWord := currentWord s; wpm := wpm s;
     isPlaying := isPlaying s; isPaused := isPaused s;
     currentWordIndex := currentWordIndex s; wordIndexRef := wordIndexRef s;
     lastTimeRef := lastTimeRef s; animationFrameRef := pending |}.

Definition setText (t : jsstring) (ws : list PreprocessedWord) (s : State)
  : State :=
  {| text := t; preprocessedWords := ws;
     currentWord := currentWord s; wpm := wpm s;
     isPlaying := isPlaying s; isPaused := isPaused s;
     currentWordIndex := currentWordIndex s; wordIndexRef := wordIndexRef s;
     lastTimeRef := lastTimeRef s; animationFrameRef := animationFrameRef s |}.

(** One call of the frame callback [loop(now)]. *)
Definition loop (now : float) (s : State) : State :=
  if negb (isPlaying s) || isPaused s then setFrame false s
  else
    let words := preprocessedWords s in
    let currentIndex := wordIndexRef s in
    if Nat.leb (length words) currentIndex then
      (* reached the end *)
      setFrame false (setPlayback false false s)
    else
      match nth_error words currentIndex with
      | None => s   (* not reached: currentIndex < words.length *)
      | Some currentWordData =>
          let delta := now - lastTimeRef s in
          let s1 :=
            if duration currentWordData <=? delta then
              (* time to show the next word *)
              setLastTime (lastTimeRef s + duration currentWordData)
                (setIndex (currentIndex + 1) currentIndex
                   (setCurrentWord (Some currentWordData) s))
            else s in
          (* continue the loop *)
          setFrame true s1
      end.

(** The playback effect, run when [isPlaying] or [isPaused] changed; [now] is
    the reading of [performance.now()]. *)
Definition playbackEffect (now : float) (s : State) : State :=
  if negb (isPlaying s) || isPaused s
     || Nat.eqb (length (preprocessedWords s)) 0
  then setFrame false s
  else setFrame true (setLastTime now s).

(** The frames the browser delivers, one clock reading each, as long as a
    callback is pending. *)
Fixpoint frames (samples : list float) (s : State) : State :=
  match samples with
  | [] => s
  | now :: rest => if animationFrameRef s then frames rest (loop now s) else s
  end.

Definition handleTextChange (newText : jsstring) (s : State) : State :=
  setPlayback false false
    (setCurrentWord None
       (setIndex 0 0
          (setText newText (processText newText (wpm s) defaultFontSize) s))).

Definition handleStart (s : State) : State :=
  if Nat.eqb (length (preprocessedWords s)) 0 then s
  else
    let s1 :=
      if Nat.leb (length (preprocessedWords s)) (wordIndexRef s)
      then setIndex 0 0 s else s in
    setPlayback true false s1.

Definition handlePause (s : State) : State := setPlayback false true s.

Definition handleResume (s : State) : State :=
  let s1 :=
    if Nat.eqb (length (preprocessedWords s)) 0
       || Nat.leb (length (preprocessedWords s)) (wordIndexRef s)
    then setIndex 0 0 s else s in
  setPlayback true false s1.

Definition handleStop (s : State) : State :=
  setCurrentWord None (setIndex 0 0 (setPlayback false false s)).

Definition handleReset (s : State) : State := setIndex 0 0 (handleStop s).

Definition handleWpmChange (newWpm : float) (s : State) : State :=
  {| text := text s; preprocessedWords := preprocessedWords s;
     currentWord := currentWord s; wpm := newWpm;
     isPlaying := isPlaying s; isPaused := isPaused s;
     currentWordIndex := currentWordIndex s; wordIndexRef := wordIndexRef s;
     lastTimeRef := lastTimeRef s; animationFrameRef := animationFrameRef s |}.

(** The effect on [wpm] and [text]: a text that is not empty is processed
    again at the current rate. *)
Definition reprocessEffect (s : State) : State :=
  match text s with
  | [] => s
  | _ :: _ => setText (text s) (processText (text s) (wpm s) defaultFontSize) s
  end.

(** "a b c" typed in and started at the default rate, the clock at 0: three
    records of 200 ms each. *)
Definition playingABC : State :=
  playbackEffect 0 (handleStart (handleTextChange (js "a b c") initialState)).

(** The same reader after the frames at 210, 420, 700 and 716 ms: played
    to the end. *)
Definition finishedABC : State := frames [210; 420; 700; 716] playingABC.

(** [handlePaste]: the pasted text goes after the text there is, a space in
    between when that text is not empty. *)
Definition handlePaste (pastedText : jsstring) (s : State) : State :=
  let newText :=
    text s ++ (match text s with [] => [] | _ :: _ => [32%N] end)
      ++ pastedText in
  setPlayback false false
    (setCurrentWord None
       (setIndex 0 0
          (setText newText (processText newText (wpm s) defaultFontSize) s))).

(** The word display area: [WordDisplay] is mounted with [currentWord] when
    there is one and the reader is playing or paused. *)
Definition displayedWord (s : State) : option PreprocessedWord :=
  match currentWord s with
  | Some w => if isPlaying s || isPaused s then Some w else None
  | None => None
  end.

(** The boundary time the loop has scheduled after it went past records of
    durations [ds], from the base line [t0]: the durations added one by one,
    as [lastTimeRef.current += duration] adds them. *)
Definition scheduled (t0 : float) (ds : list float) : float :=
  fold_left PrimFloat.add ds t0.

(** The records the loop went past between the indices [i] and [j]. *)
Definition passed (ws : list PreprocessedWord) (i j : nat)
  : list PreprocessedWord :=
  firstn (j - i) (skipn i ws).

(** What would hold after a sample if the boundary step were repeated: the
    sequence is used up, or the time left is below the duration of the record
    that is now current. *)
Definition caughtUp (now : float) (s : State) : Prop :=
  length (preprocessedWords s) <= wordIndexRef s
  \/ exists w, nth_error (preprocessedWords s) (wordIndexRef s) = Some w
               /\ (now - lastTimeRef s <? duration w) = true.

End RSVP.

(** ** components/RSVPControls.tsx *)

Module Controls.

Import RSVP.
Local Open Scope float_scope.

Definition WPM_MIN : float := 100.
Definition WPM_MAX : float := 1000.

(** The slider's [onChange]; [newWpm] is what [Number.parseInt] made of the
    value of the input, [NaN] when it held no number. *)
Definition handleWpmChange (newWpm : float) (s : State) : State :=
  if negb (is_nan newWpm) && (WPM_MIN <=? newWpm) && (newWpm <=? WPM_MAX)
  then RSVP.handleWpmChange newWpm s
  else s.

(** The buttons that are rendered and not disabled. *)
Definition startEnabled (s : State) : bool :=
  negb (isPlaying s) && negb (isPaused s)
  && negb (Nat.eqb (length (preprocessedWords s)) 0).
Definition pauseShown (s : State) : bool := isPlaying s && negb (isPaused s).
Definition resumeShown (s : State) : bool := isPaused s.
Definition stopShown (s : State) : bool := isPlaying s || isPaused s.
Definition resetEnabled (s : State) : bool :=
  negb (Nat.eqb (currentWordIndex s) 0).

End Controls.

(** ** components/WordDisplay.tsx *)

Module WordDisplay.

Import Orp.

(** The text of the three spans and [previousWordRef].  The [transform]
    styles, which the style props of the spans carry as well, are left
    out. *)
Record Dom : Type := mkDom {
  previousWordRef : jsstring;
  beforeContent : jsstring;
  anchorContent : jsstring;
  afterContent : jsstring
}.

(** After mounting: empty spans, [previousWordRef] the empty string. *)
Definition mounted : Dom :=
  {| previousWordRef := []; beforeContent := []; anchorContent := [];
     afterContent := [] |}.

Definition updateTextContent (before anchor after : jsstring) (d : Dom) : Dom :=
  {| previousWordRef := previousWordRef d; beforeContent := before;
     anchorContent := anchor; afterContent := after |}.

Definition setPreviousWord (w : jsstring) (d : Dom) : Dom :=
  {| previousWordRef := w; beforeContent := beforeContent d;
     anchorContent := anchorContent d; afterContent := afterContent d |}.

(** The effect that shows [word].  It runs when a field of the word it
    depends on changed; run on an unchanged word it changes nothing. *)
Definition effect (word : PreprocessedWord) (d : Dom) : Dom :=
  match Orp.word word with
  | [] => updateTextContent [] [] [] d
  | _ :: _ =>
      if list_eq_dec N.eq_dec (previousWordRef d) (Orp.word word) then d
      else
        updateTextContent (beforeText word) (anchorChar word) (afterText word)
          (setPreviousWord (Orp.word word) d)
  end.

(** The words shown one after the other since mounting. *)
Definition shown (words : list PreprocessedWord) : Dom :=
  fold_left (fun d w => effect w d) words mounted.

End WordDisplay.

(** ** The reader driven through its controls

    What can happen to the component: the events of the text area and of
    the controls, each when its button is rendered and enabled, the two
    effects of [RSVP], and a frame when one is pending. *)

Inductive Event : Type :=
| TextChange (newText : jsstring)
| Paste (pastedText : jsstring)
| WpmSlider (newWpm : float)
| ClickStart
| ClickPause
| ClickResume
| ClickStop
| ClickReset
| Reprocess
| PlaybackEffect (now : float)
| Frame (now : float).

Definition enabled (e : Event) (s : RSVP.State) : bool :=
  match e with
  | ClickStart => Controls.startEnabled s
  | ClickPause => Controls.pauseShown s
  | ClickResume => Controls.resumeShown s
  | ClickStop => Controls.stopShown s
  | ClickReset => Controls.resetEnabled s
  | Frame _ => RSVP.animationFrameRef s
  | _ => true
  end.

Definition dispatch (e : Event) (s : RSVP.State) : RSVP.State :=
  match e with
  | TextChange newText => RSVP.handleTextChange newText s
  | Paste pastedText => RSVP.handlePaste pastedText s
  | WpmSlider newWpm => Controls.handleWpmChange newWpm s
  | ClickStart => RSVP.handleStart s
  | ClickPause => RSVP.handlePause s
  | ClickResume => RSVP.handleResume s
  | ClickStop => RSVP.handleStop s
  | ClickReset => RSVP.handleReset s
  | Reprocess => RSVP.reprocessEffect s
  | PlaybackEffect now => RSVP.playbackEffect now s
  | Frame now => RSVP.loop now s
  end.

(** The states the events lead to from the initial one. *)
Inductive reachable : RSVP.State -> Prop :=
| reachable_initial : reachable RSVP.initialState
| reachable_dispatch (e : Event) (s : RSVP.State) :
    reachable s -> enabled e s = true -> reachable (dispatch e s).

Fixpoint run (events : list Event) (s : RSVP.State) : RSVP.State :=
  match events with
  | [] => s
  | e :: rest => if enabled e s then run rest (dispatch e s) else s
  end.

(** A session: "a b c" typed, started, the first word gone past, paused,
    and the rate set to 500 and applied. *)
Definition session : RSVP.State :=
  run [TextChange (js "a b c"); ClickStart; PlaybackEffect 0; Frame 210;
       ClickPause; PlaybackEffect 300; WpmSlider 500; Reprocess]
    RSVP.initialState.

(** What every reachable state satisfies. *)
Definition invariant (s : RSVP.State) : Prop :=
  RSVP.isPlaying s && RSVP.isPaused s = false
  /\ (RSVP.isPlaying s || RSVP.isPaused s = true ->
      length (RSVP.preprocessedWords s) <> 0)
  /\ RSVP.wordIndexRef s <= length (RSVP.preprocessedWords s)
  /\ (RSVP.currentWordIndex s = 0
      \/ RSVP.currentWordIndex s < length (RSVP.preprocessedWords s))
  /\ map Orp.word (RSVP.preprocessedWords s)
     = filter Orp.nonEmpty (split_ws (RSVP.text s))
  /\ ((Controls.WPM_MIN <=? RSVP.wpm s)%float
      && (RSVP.wpm s <=? Controls.WPM_MAX)%float = true).

(** A record that [processText] gave for some text, rate and font size. *)
Definition produced (r : Orp.PreprocessedWord) : Prop :=
  exists text baseWpm fontSize, In r (Orp.processText text baseWpm fontSize).

(** The spans show the three parts of the word in [previousWordRef]. *)
Definition showsPrevious (d : WordDisplay.Dom) : Prop :=
  let p := WordDisplay.previousWordRef d in
  WordDisplay.beforeContent d = slice_to p (Orp.calculateORP p)
  /\ WordDisplay.anchorContent d = charAtOrEmpty p (Orp.calculateORP p)
  /\ WordDisplay.afterContent d = slice_from p (Orp.calculateORP p + 1).

(** The rate that the slider gives for the whole number [n]. *)
Definition rateOf (n : Z) : float := PrimFloat.of_uint63 (Uint63.of_Z n).

(** What is computed for each whole rate of the slider: the slider's test
    lets it through, and the base duration times each of the three
    multipliers lies between 60 and 780. *)
Definition rateCheck (n : Z) : bool :=
  let base := ((60 / rateOf n) * 1000)%float in
  let within (d : float) := ((60 <=? d) && (d <=? 780))%float in
  (negb (is_nan (rateOf n)) && (Controls.WPM_MIN <=? rateOf n)%float
   && (rateOf n <=? Controls.WPM_MAX)%float)
  && within (base * 1.3)%float && within (base * 1.15)%float
  && within (base * 1.0)%float.

Import Orp RSVP.

(** * Properties of the preprocessor *)

(** ** Lists and code units *)

Lemma forallb_rev {A} (p : A -> bool) (l : list A) :
  forallb p l = true -> forallb p (rev l) = true.
Proof.
  rewrite !forallb_forall. intros H x Hx. apply H, in_rev, Hx.
Qed.

Lemma dropWhile_head {A} (p : A -> bool) (l : list A) :
  forallb (fun x => negb (p x)) l = true -> dropWhile p l = l.
Proof.
  destruct l as [|x l]; simpl; [reflexivity|].
  intros H. apply andb_prop in H. destruct H as [Hx _].
  destruct (p x); [discriminate | reflexivity].
Qed.

Lemma trim_word (t : jsstring) : forallb isWord t = true -> trim t = t.
Proof.
  intros H. unfold trim.
  rewrite (dropWhile_head isWhiteSpace t) by exact H.
  rewrite (dropWhile_head isWhiteSpace (rev t)) by (apply forallb_rev; exact H).
  apply rev_involutive.
Qed.

Lemma nonEmpty_cons (c : N) (t : jsstring) : nonEmpty (c :: t) = true.
Proof. reflexivity. Qed.

Lemma nonEmpty_true (t : jsstring) : nonEmpty t = true -> t <> [].
Proof. destruct t; [discriminate | discriminate]. Qed.

(** ** [split] *)

Lemma split_from_word (tok : jsstring) : forall piece s,
  forallb isWord tok = true ->
  split_from false piece (tok ++ s) = split_from false (rev tok ++ piece) s.
Proof.
  induction tok as [|c tok IH]; intros piece s H; simpl in *; [reflexivity|].
  apply andb_prop in H. destruct H as [Hc Htok].
  unfold isWord in Hc. apply negb_true_iff in Hc. rewrite Hc.
  rewrite IH by exact Htok. rewrite <- app_assoc. reflexivity.
Qed.

Lemma split_from_separator (gap : jsstring) : forall s,
  forallb isWhiteSpace gap = true ->
  split_from true [] (gap ++ s) = split_from true [] s.
Proof.
  induction gap as [|g gap IH]; intros s H; simpl in *; [reflexivity|].
  apply andb_prop in H. destruct H as [Hg Hgap].
  rewrite Hg. apply IH, Hgap.
Qed.

Lemma split_from_token (tok : jsstring) (inSep : bool) (s : jsstring) :
  isToken tok = true ->
  split_from inSep [] (tok ++ s) = split_from false (rev tok) s.
Proof.
  unfold isToken. intros H. apply andb_prop in H. destruct H as [Hne Hw].
  destruct tok as [|c tok]; [discriminate|].
  simpl in Hw. apply andb_prop in Hw. destruct Hw as [Hc Htok].
  simpl. unfold isWord in Hc. apply negb_true_iff in Hc. rewrite Hc.
  rewrite split_from_word by exact Htok. reflexivity.
Qed.

(** The empty piece that a leading separator leaves is the only difference
    between the two ways to enter the scan, and the filter drops it. *)
Lemma words_inSep (s : jsstring) :
  filter nonEmpty (split_ws s) = filter nonEmpty (split_from true [] s).
Proof.
  unfold split_ws. destruct s as [|c s]; simpl; [reflexivity|].
  destruct (isWhiteSpace c); reflexivity.
Qed.

Lemma words_items (items : list (jsstring * jsstring)) (tail : jsstring) :
  forallb isItem items = true ->
  forallb isWord tail = true ->
  filter nonEmpty
    (split_from true [] (concat (map (fun p => fst p ++ snd p) items) ++ tail))
  = tokensOf items tail.
Proof.
  intros Hitems Htail. unfold tokensOf.
  induction items as [|[tok gap] items IH]; cbn [map concat fst snd app].
  - destruct tail as [|c tail]; [reflexivity|].
    rewrite <- (app_nil_r (c :: tail)) at 1.
    rewrite split_from_token
      by (unfold isToken; rewrite nonEmpty_cons; exact Htail).
    cbn [split_from]. rewrite rev_involutive. reflexivity.
  - cbn [forallb] in Hitems.
    apply andb_prop in Hitems. destruct Hitems as [Hitem Hitems].
    unfold isItem in Hitem. cbn [fst snd] in Hitem.
    apply andb_prop in Hitem. destruct Hitem as [Htok Hgap].
    unfold isSeparator in Hgap. apply andb_prop in Hgap.
    destruct Hgap as [Hne Hgap].
    destruct gap as [|g gap]; [discriminate|].
    cbn [forallb] in Hgap. apply andb_prop in Hgap. destruct Hgap as [Hg Hgap].
    rewrite <- !app_assoc. rewrite split_from_token by exact Htok.
    cbn [split_from app]. rewrite Hg. rewrite rev_involutive.
    rewrite split_from_separator by exact Hgap.
    assert (Hn : nonEmpty tok = true).
    { unfold isToken in Htok. apply andb_prop in Htok. apply Htok. }
    cbn [filter]. rewrite Hn. f_equal. apply IH, Hitems.
Qed.

Lemma words_layout (lead : jsstring) (items : list (jsstring * jsstring))
  (tail : jsstring) :
  forallb isWhiteSpace lead = true ->
  forallb isItem items = true ->
  forallb isWord tail = true ->
  filter nonEmpty (split_ws (layout lead items tail)) = tokensOf items tail.
Proof.
  intros Hlead Hitems Htail. unfold layout.
  rewrite words_inSep, split_from_separator by exact Hlead.
  apply words_items; assumption.
Qed.

(** Every piece that the scan gives is free of white space. *)
Lemma split_from_pieces (s : jsstring) : forall inSep piece,
  forallb isWord piece = true ->
  Forall (fun t => forallb isWord t = true) (split_from inSep piece s).
Proof.
  induction s as [|c s IH]; intros inSep piece Hp; simpl.
  - constructor; [apply forallb_rev, Hp | constructor].
  - destruct (isWhiteSpace c) eqn:Hc.
    + destruct inSep; [apply IH; reflexivity|].
      constructor; [apply forallb_rev, Hp | apply IH; reflexivity].
    + apply IH. simpl. unfold isWord at 1. rewrite Hc. exact Hp.
Qed.

Lemma words_tokens (text w : jsstring) :
  In w (filter nonEmpty (split_ws text)) -> isToken w = true.
Proof.
  intros H. apply filter_In in H. destruct H as [Hin Hne].
  unfold isToken. rewrite Hne. simpl.
  pose proof (split_from_pieces text false [] eq_refl) as HF.
  rewrite Forall_forall in HF. apply HF, Hin.
Qed.

Lemma trim_token (t : jsstring) : isToken t = true -> trim t = t.
Proof.
  unfold isToken. intros H. apply andb_prop in H. apply trim_word, H.
Qed.

Lemma map_trim_tokens (ts : list jsstring) :
  Forall (fun t => isToken t = true) ts -> map trim ts = ts.
Proof.
  induction 1 as [|t ts Ht _ IH]; simpl; [reflexivity|].
  rewrite trim_token by exact Ht. rewrite IH. reflexivity.
Qed.

Lemma processText_words (text : jsstring) (baseWpm fontSize : float) :
  map word (processText text baseWpm fontSize)
  = filter nonEmpty (split_ws text).
Proof.
  unfold processText. cbv zeta. rewrite map_map. simpl.
  apply map_trim_tokens. apply Forall_forall. apply words_tokens.
Qed.

Lemma processText_In (text : jsstring) (baseWpm fontSize : float)
  (r : PreprocessedWord) :
  In r (processText text baseWpm fontSize) ->
  exists w, isToken w = true /\ word r = w
    /\ r = preprocessWord ((60 / baseWpm) * 1000)%float
             (calculateMonospaceCharWidth fontSize) w.
Proof.
  unfold processText. cbv zeta. intros H. apply in_map_iff in H.
  destruct H as [w [Hr Hin]]. exists w.
  pose proof (words_tokens _ _ Hin) as Hw.
  split; [exact Hw|]. split; [|symmetry; exact Hr].
  subst r. simpl. apply trim_token, Hw.
Qed.

(** Every text is laid out in that way, so [words_layout] speaks of all
    inputs. *)
Lemma layout_complete (text : jsstring) :
  exists lead items tail,
    forallb isWhiteSpace lead = true
    /\ forallb isItem items = true
    /\ forallb isWord tail = true
    /\ text = layout lead items tail.
Proof.
  induction text as [|c text IH].
  - exists [], [], []. repeat split.
  - destruct IH as [lead [items [tail [Hl [Hi [Ht E]]]]]].
    destruct (isWhiteSpace c) eqn:Hc.
    + exists (c :: lead), items, tail. cbn [forallb]. rewrite Hc, Hl.
      repeat split; try assumption. rewrite E. reflexivity.
    + assert (Hw : isWord c = true) by (unfold isWord; rewrite Hc; reflexivity).
      destruct lead as [|g lead].
      * destruct items as [|[tok gap] items].
        -- exists [], [], (c :: tail). cbn [forallb]. rewrite Hw, Ht.
           repeat split. rewrite E. reflexivity.
        -- exists [], ((c :: tok, gap) :: items), tail.
           cbn [forallb] in *. apply andb_prop in Hi. destruct Hi as [Hp Hi].
           unfold isItem, isToken in *. cbn [fst snd forallb] in *.
           apply andb_prop in Hp. destruct Hp as [Htok Hgap].
           apply andb_prop in Htok. destruct Htok as [_ Htok].
           rewrite nonEmpty_cons, Hw, Htok, Hgap, Hi, Ht.
           repeat split. rewrite E. reflexivity.
      * exists [], (([c], g :: lead) :: items), tail.
        cbn [forallb]. unfold isItem at 1, isToken, isSeparator.
        cbn [fst snd forallb]. rewrite !nonEmpty_cons, Hw.
        cbn [forallb] in Hl. rewrite Hl, Hi, Ht.
        repeat split. rewrite E. unfold layout. cbn [map concat fst snd app].
        rewrite <- !app_assoc. reflexivity.
Qed.

(** ** The anchor *)

Lemma calculateORP_length (w : jsstring) :
  calculateORP w =
    if Nat.eqb (length w) 0 then 0
    else if Nat.leb (length w) 3 then length w / 2
    else Nat.max 1 (length w / 3).
Proof. reflexivity. Qed.

Lemma calculateORP_lt (w : jsstring) : w <> [] -> calculateORP w < length w.
Proof.
  intros Hw. unfold calculateORP.
  assert (Hpos : 0 < length w) by (destruct w; [congruence | simpl; lia]).
  destruct (Nat.eqb_spec (length w) 0) as [E|_]; [lia|].
  destruct (Nat.leb_spec (length w) 3) as [_|Hlong].
  - apply Nat.div_lt; lia.
  - apply Nat.max_lub_lt; [lia | apply Nat.div_lt; lia].
Qed.

Lemma slices_partition (w : jsstring) : forall i,
  i < length w ->
  slice_to w i ++ charAtOrEmpty w i ++ slice_from w (i + 1) = w
  /\ length (charAtOrEmpty w i) = 1.
Proof.
  unfold slice_to, slice_from, charAtOrEmpty.
  induction w as [|c w IH]; intros i Hi; simpl in Hi; [lia|].
  destruct i as [|i]; simpl.
  - split; reflexivity.
  - destruct (IH i) as [E L]; [lia|]. split; [|exact L].
    f_equal. exact E.
Qed.

Lemma preprocessWord_partition (b a : float) (w : jsstring) :
  let r := preprocessWord b a w in
  beforeText r ++ anchorChar r ++ afterText r = word r
  /\ (word r <> [] -> length (anchorChar r) = 1)
  /\ (word r = [] ->
      beforeText r = [] /\ anchorChar r = [] /\ afterText r = []).
Proof.
  cbv zeta. cbn [beforeText anchorChar afterText word preprocessWord].
  destruct (trim w) as [|c t] eqn:E.
  - repeat split; intros; congruence.
  - assert (Hne : c :: t <> []) by discriminate.
    destruct (slices_partition (c :: t) (calculateORP (c :: t))
                (calculateORP_lt _ Hne)) as [Hp Hl].
    repeat split; intros; try congruence; assumption.
Qed.

(** ** The punctuation multiplier *)

Lemma lastChar_snoc (body : jsstring) (c : N) : lastChar (body ++ [c]) = Some c.
Proof.
  unfold lastChar. rewrite length_app. simpl. rewrite Nat.add_1_r.
  rewrite nth_error_app2 by lia. rewrite Nat.sub_diag. reflexivity.
Qed.

Lemma getPunctuationMultiplier_snoc (body : jsstring) (c : N) :
  getPunctuationMultiplier (body ++ [c]) =
    (if isSentenceEnd c then 1.3
     else if isClauseMark c then 1.15
     else 1.0)%float.
Proof.
  unfold getPunctuationMultiplier. rewrite lastChar_snoc. reflexivity.
Qed.

(** ** The records of [processText] *)

(** C3: every record that [processText] gives splits its word into
    [beforeText], [anchorChar] and [afterText], which put together give the
    word back; the anchor is one code unit long unless the word is empty, and
    then the three parts are empty. *)
Theorem processText_partition (text : jsstring) (baseWpm fontSize : float)
  (r : PreprocessedWord) :
  In r (processText text baseWpm fontSize) ->
  beforeText r ++ anchorChar r ++ afterText r = word r
  /\ (word r <> [] -> length (anchorChar r) = 1)
  /\ (word r = [] ->
      beforeText r = [] /\ anchorChar r = [] /\ afterText r = []).
Proof.
  intros H. apply processText_In in H. destruct H as [w [_ [_ E]]].
  subst r. apply preprocessWord_partition.
Qed.

Lemma processText_partition_witness :
  In readingRecord (processText (js "speed reading") 300 8)
  /\ beforeText readingRecord = js "re"
  /\ anchorChar readingRecord = js "a"
  /\ afterText readingRecord = js "ding"
  /\ beforeText readingRecord ++ anchorChar readingRecord
       ++ afterText readingRecord = word readingRecord.
Proof.
  assert (H : In readingRecord (processText (js "speed reading") 300 8))
    by (vm_compute; right; left; reflexivity).
  split; [exact H|].
  repeat (split; [reflexivity|]).
  exact (proj1 (processText_partition _ _ _ _ H)).
Defined.

(** C4: the anchor index depends on the length of the word only: 0 for the
    empty word, half the length (rounded down) up to length 3, and beyond
    that a third of the length (rounded down) but 1 at least; so 0 for "a",
    1 for "cat" and 2 for "reading".  It is the index that the records of
    [processText] carry. *)
Theorem calculateORP_by_length :
  (forall w : jsstring,
      (length w = 0 -> calculateORP w = 0)
      /\ (1 <= length w <= 3 -> calculateORP w = length w / 2)
      /\ (3 < length w -> calculateORP w = Nat.max 1 (length w / 3)))
  /\ (forall w1 w2 : jsstring,
         length w1 = length w2 -> calculateORP w1 = calculateORP w2)
  /\ (forall text baseWpm fontSize r,
         In r (processText text baseWpm fontSize) ->
         anchorIndex r = calculateORP (word r))
  /\ calculateORP (js "a") = 0
  /\ calculateORP (js "cat") = 1
  /\ calculateORP (js "reading") = 2.
Proof.
  split; [|split; [|split; [|repeat split]]].
  - intros w. rewrite calculateORP_length. repeat split; intros H.
    + rewrite H. reflexivity.
    + destruct (Nat.eqb_spec (length w) 0); [lia|].
      destruct (Nat.leb_spec (length w) 3); [reflexivity | lia].
    + destruct (Nat.eqb_spec (length w) 0); [lia|].
      destruct (Nat.leb_spec (length w) 3); [lia | reflexivity].
  - intros w1 w2 H. rewrite !calculateORP_length, H. reflexivity.
  - intros text baseWpm fontSize r H. apply processText_In in H.
    destruct H as [w [_ [_ E]]]. subst r. reflexivity.
Qed.

(** C5, as the code has it: the duration of a record is
    [((60 / wpm) * 1000) * multiplier] in binary64 arithmetic, and the
    multiplier is read off the last code unit of the word alone: 1.3 after
    [.], [!] or [?], 1.15 after [,], [;] or [:], and 1 otherwise.  At 300
    words per minute the base is 200 ms; a word that ends a sentence lasts
    260 ms, a plain word 200 ms, and a word before a comma
    229.99999999999997 ms, the binary64 product of 200 and 1.15. *)
Theorem processText_duration (text : jsstring) (baseWpm fontSize : float)
  (r : PreprocessedWord) :
  In r (processText text baseWpm fontSize) ->
  exists (body : jsstring) (c : N),
    word r = body ++ [c]
    /\ getPunctuationMultiplier (word r) =
         (if isSentenceEnd c then 1.3
          else if isClauseMark c then 1.15
          else 1.0)%float
    /\ duration r =
         (((60 / baseWpm) * 1000) * getPunctuationMultiplier (word r))%float
    /\ (baseWpm = 300%float ->
        duration r =
          (if isSentenceEnd c then 260
           else if isClauseMark c then 229.99999999999997
           else 200)%float).
Proof.
  intros H. apply processText_In in H. destruct H as [w [Hw [Ew E]]].
  assert (Hne : w <> []).
  { unfold isToken in Hw. apply andb_prop in Hw. apply nonEmpty_true, Hw. }
  destruct (exists_last Hne) as [body [c Ebody]].
  exists body, c. rewrite Ew.
  assert (Ed : duration r =
            (((60 / baseWpm) * 1000) * getPunctuationMultiplier w)%float).
  { rewrite E. cbn [duration preprocessWord].
    rewrite (trim_token w Hw). reflexivity. }
  split; [exact Ebody|]. split; [|split; [exact Ed|]].
  - rewrite Ebody. apply getPunctuationMultiplier_snoc.
  - intros ->. rewrite Ed, Ebody, getPunctuationMultiplier_snoc.
    destruct (isSentenceEnd c); [vm_compute; reflexivity|].
    destruct (isClauseMark c); vm_compute; reflexivity.
Qed.

Lemma processText_duration_witness :
  In readingRecord (processText (js "speed reading") 300 8)
  /\ exists (body : jsstring) (c : N),
       word readingRecord = body ++ [c]
       /\ duration readingRecord =
            (if isSentenceEnd c then 260
             else if isClauseMark c then 229.99999999999997
             else 200)%float.
Proof.
  assert (H : In readingRecord (processText (js "speed reading") 300 8))
    by (vm_compute; right; left; reflexivity).
  split; [exact H|].
  destruct (processText_duration _ _ _ _ H) as [body [c [E [_ [_ D]]]]].
  exists body, c. split; [exact E | exact (D eq_refl)].
Defined.

(** C5, as the specification words it, fails at the comma: at 300 words per
    minute the record of "Hello," lasts 229.99999999999997 ms, not 230 ms. *)
Lemma comma_duration_at_300 :
  map word (processText (js "Hello, world. Testing RSVP.") 300 8)
    = [js "Hello,"; js "world."; js "Testing"; js "RSVP."]
  /\ map duration (processText (js "Hello, world. Testing RSVP.") 300 8)
    = [229.99999999999997; 260; 200; 260]%float
  /\ 229.99999999999997%float <> 230%float.
Proof.
  split; [vm_compute; reflexivity|].
  split; [vm_compute; reflexivity|].
  intros H. discriminate H.
Qed.

(** C6: a text made of tokens kept apart by white space gives one record per
    token, in the order of the text; white space in front, after the last
    token and in runs adds no record, so there are as many records as
    tokens. *)
Theorem processText_tokens (lead : jsstring)
  (items : list (jsstring * jsstring)) (tail : jsstring)
  (baseWpm fontSize : float) :
  forallb isWhiteSpace lead = true ->
  forallb isItem items = true ->
  forallb isWord tail = true ->
  map word (processText (layout lead items tail) baseWpm fontSize)
    = tokensOf items tail
  /\ length (processText (layout lead items tail) baseWpm fontSize)
    = length (tokensOf items tail).
Proof.
  intros Hlead Hitems Htail.
  assert (E : map word (processText (layout lead items tail) baseWpm fontSize)
              = tokensOf items tail).
  { rewrite processText_words. apply words_layout; assumption. }
  split; [exact E|]. rewrite <- E. symmetry. apply length_map.
Qed.

Lemma processText_tokens_witness :
  layout (js "  ") [(js "Hello,", js " "); (js "world.", js "   ")]
    (js "RSVP.") = js "  Hello, world.   RSVP."
  /\ map word (processText (js "  Hello, world.   RSVP.") 300 8)
     = [js "Hello,"; js "world."; js "RSVP."]
  /\ length (processText (js "  Hello, world.   RSVP.") 300 8) = 3.
Proof.
  split; [reflexivity|].
  exact (processText_tokens (js "  ")
           [(js "Hello,", js " "); (js "world.", js "   ")] (js "RSVP.")
           300%float 8%float eq_refl eq_refl eq_refl).
Defined.

(** C10: a text of white space only gives no record, and no record of any
    text has an empty word. *)
Theorem processText_no_empty_word :
  (forall text baseWpm fontSize,
      forallb isWhiteSpace text = true ->
      processText text baseWpm fontSize = [])
  /\ (forall text baseWpm fontSize r,
         In r (processText text baseWpm fontSize) -> word r <> []).
Proof.
  split.
  - intros text baseWpm fontSize H.
    pose proof (words_layout text [] [] H eq_refl eq_refl) as E.
    unfold layout in E. cbn [map concat] in E. rewrite !app_nil_r in E.
    unfold processText. cbv zeta. rewrite E. reflexivity.
  - intros text baseWpm fontSize r H. apply processText_In in H.
    destruct H as [w [Hw [Ew _]]]. rewrite Ew.
    unfold isToken in Hw. apply andb_prop in Hw. apply nonEmpty_true, Hw.
Qed.

Lemma processText_no_empty_word_witness :
  processText [32; 9; 10; 160; 8195; 12288; 65279]%N 300 8 = []
  /\ word readingRecord <> [].
Proof.
  split.
  - exact (proj1 processText_no_empty_word
             [32; 9; 10; 160; 8195; 12288; 65279]%N 300%float 8%float
             eq_refl).
  - apply (proj2 processText_no_empty_word (js "speed reading") 300%float
             8%float).
    vm_compute. right. left. reflexivity.
Defined.

(** * Properties of the playback scheduler *)

Section Scheduler.

Local Open Scope float_scope.

(** ** One frame *)

Lemma loop_words (now : float) (s : State) :
  preprocessedWords (loop now s) = preprocessedWords s.
Proof.
  unfold loop.
  destruct (negb (isPlaying s) || isPaused s); [reflexivity|].
  destruct (Nat.leb (length (preprocessedWords s)) (wordIndexRef s));
    [reflexivity|].
  destruct (nth_error (preprocessedWords s) (wordIndexRef s)) as [w|];
    [|reflexivity].
  destruct (duration w <=? now - lastTimeRef s); reflexivity.
Qed.

(** A frame leaves the index and the boundary time alone, or goes past the
    current record: index plus one, boundary time plus its duration. *)
Lemma loop_step (now : float) (s : State) :
  (wordIndexRef (loop now s) = wordIndexRef s
   /\ lastTimeRef (loop now s) = lastTimeRef s)
  \/ (exists w,
         nth_error (preprocessedWords s) (wordIndexRef s) = Some w
         /\ (duration w <=? now - lastTimeRef s) = true
         /\ wordIndexRef (loop now s) = (wordIndexRef s + 1)%nat
         /\ lastTimeRef (loop now s) = lastTimeRef s + duration w).
Proof.
  unfold loop.
  destruct (negb (isPlaying s) || isPaused s); [left; split; reflexivity|].
  destruct (Nat.leb (length (preprocessedWords s)) (wordIndexRef s));
    [left; split; reflexivity|].
  destruct (nth_error (preprocessedWords s) (wordIndexRef s)) as [w|] eqn:E;
    [|left; split; reflexivity].
  destruct (duration w <=? now - lastTimeRef s) eqn:D.
  - right. exists w. repeat split. exact D.
  - left. split; reflexivity.
Qed.

Lemma loop_playing (now : float) (s : State) (w : PreprocessedWord) :
  isPlaying s = true -> isPaused s = false ->
  nth_error (preprocessedWords s) (wordIndexRef s) = Some w ->
  loop now s =
    setFrame true
      (if duration w <=? now - lastTimeRef s
       then setLastTime (lastTimeRef s + duration w)
              (setIndex (wordIndexRef s + 1) (wordIndexRef s)
                 (setCurrentWord (Some w) s))
       else s).
Proof.
  intros Hp Hq E. unfold loop. rewrite Hp, Hq. cbn [negb orb].
  assert (Hlt : (wordIndexRef s < length (preprocessedWords s))%nat).
  { apply nth_error_Some. rewrite E. discriminate. }
  destruct (Nat.leb_spec (length (preprocessedWords s)) (wordIndexRef s));
    [lia|].
  rewrite E. reflexivity.
Qed.

(** ** The records gone past *)

Lemma skipn_nth_error {A} (l : list A) : forall i x,
  nth_error l i = Some x -> skipn i l = x :: skipn (S i) l.
Proof.
  induction l as [|y l IH]; intros [|i] x E; simpl in E; try discriminate.
  - injection E as ->. reflexivity.
  - cbn [skipn]. rewrite (IH i x E). reflexivity.
Qed.

Lemma passed_none (ws : list PreprocessedWord) (i : nat) : passed ws i i = [].
Proof. unfold passed. rewrite Nat.sub_diag. reflexivity. Qed.

Lemma passed_step (ws : list PreprocessedWord) (i j : nat)
  (w : PreprocessedWord) :
  nth_error ws i = Some w -> (i + 1 <= j)%nat ->
  passed ws i j = w :: passed ws (i + 1) j.
Proof.
  intros E H. unfold passed. rewrite (skipn_nth_error ws i w E).
  replace (j - i)%nat with (S (j - (i + 1))) by lia.
  rewrite Nat.add_1_r. reflexivity.
Qed.

Lemma passed_all (ws : list PreprocessedWord) : passed ws 0 (length ws) = ws.
Proof. unfold passed. rewrite Nat.sub_0_r. apply firstn_all. Qed.

(** ** Frames in sequence *)

Lemma frames_invariant (samples : list float) : forall s,
  preprocessedWords (frames samples s) = preprocessedWords s
  /\ (wordIndexRef s <= wordIndexRef (frames samples s))%nat
  /\ lastTimeRef (frames samples s) =
       scheduled (lastTimeRef s)
         (map duration
            (passed (preprocessedWords s) (wordIndexRef s)
               (wordIndexRef (frames samples s)))).
Proof.
  induction samples as [|now samples IH]; intros s; cbn [frames].
  - rewrite passed_none. repeat split. apply Nat.le_refl.
  - destruct (animationFrameRef s).
    2:{ rewrite passed_none. repeat split. apply Nat.le_refl. }
    destruct (IH (loop now s)) as [Hw [Hle Ht]].
    rewrite loop_words in Hw, Ht.
    destruct (loop_step now s) as [[Ei Et] | [w [E [_ [Ei Et]]]]].
    + rewrite Ei in Hle, Ht. rewrite Et in Ht. auto.
    + rewrite Ei in Hle, Ht. rewrite Et in Ht.
      split; [exact Hw|]. split; [lia|].
      rewrite (passed_step _ _ _ w E Hle). exact Ht.
Qed.

(** C1: past a record boundary the loop adds the duration of the record to
    the boundary time and never writes the clock reading into it.  So
    whatever the clock readings of the frames are, the boundary time after a
    run is the base line plus the durations of the records gone past, added
    in order; two runs that went past the same records agree on it. *)
Theorem frames_no_drift (samples : list float) (s : State) :
  lastTimeRef (frames samples s) =
    scheduled (lastTimeRef s)
      (map duration
         (passed (preprocessedWords s) (wordIndexRef s)
            (wordIndexRef (frames samples s))))
  /\ (forall samples' : list float,
         wordIndexRef (frames samples' s) = wordIndexRef (frames samples s) ->
         lastTimeRef (frames samples' s) = lastTimeRef (frames samples s)).
Proof.
  destruct (frames_invariant samples s) as [_ [_ Ht]].
  split; [exact Ht|].
  intros samples' E.
  destruct (frames_invariant samples' s) as [_ [_ Ht']].
  rewrite Ht', Ht, E. reflexivity.
Qed.

(** A run from the first record that went past all of them has scheduled
    the durations of the whole sequence. *)
Lemma frames_whole_sequence (samples : list float) (s : State) :
  wordIndexRef s = 0%nat ->
  wordIndexRef (frames samples s) = length (preprocessedWords s) ->
  lastTimeRef (frames samples s) =
    scheduled (lastTimeRef s) (map duration (preprocessedWords s)).
Proof.
  intros H0 Hn. destruct (frames_invariant samples s) as [_ [_ Ht]].
  rewrite Ht, H0, Hn, passed_all. reflexivity.
Qed.

(** Frames that come late and unevenly, and frames that come every 50 ms:
    both runs go past the three records and schedule 600 ms. *)
Example frames_jitter :
  wordIndexRef (frames [230; 231; 470; 1000; 1016; 1033; 1050] playingABC) = 3%nat
  /\ lastTimeRef (frames [230; 231; 470; 1000; 1016; 1033; 1050] playingABC)
     = 600
  /\ wordIndexRef
       (frames [50; 100; 150; 200; 250; 300; 350; 400; 450; 500; 550; 600]
          playingABC) = 3%nat
  /\ lastTimeRef
       (frames [50; 100; 150; 200; 250; 300; 350; 400; 450; 500; 550; 600]
          playingABC) = 600.
Proof. vm_compute. repeat split. Qed.

(** C2, as the code has it: a frame taken while playing goes past one record
    boundary at most.  When the time since the boundary covers the duration
    of the current record, the index goes up by one and the boundary time by
    that duration, the record becomes the displayed word, and the next frame
    is requested; otherwise index and boundary time stay. *)
Theorem loop_one_boundary (now : float) (s : State) (w : PreprocessedWord) :
  isPlaying s = true -> isPaused s = false ->
  nth_error (preprocessedWords s) (wordIndexRef s) = Some w ->
  wordIndexRef (loop now s) =
    (if duration w <=? now - lastTimeRef s
     then (wordIndexRef s + 1)%nat else wordIndexRef s)
  /\ lastTimeRef (loop now s) =
    (if duration w <=? now - lastTimeRef s
     then lastTimeRef s + duration w else lastTimeRef s)
  /\ currentWord (loop now s) =
    (if duration w <=? now - lastTimeRef s
     then Some w else currentWord s)
  /\ animationFrameRef (loop now s) = true.
Proof.
  intros Hp Hq E. rewrite (loop_playing now s w Hp Hq E).
  destruct (duration w <=? now - lastTimeRef s); repeat split.
Qed.

Lemma loop_one_boundary_witness :
  wordIndexRef (loop 450 playingABC) = 1%nat
  /\ lastTimeRef (loop 450 playingABC) = 200.
Proof.
  pose proof (loop_one_boundary 450 playingABC
                (preprocessWord 200 (calculateMonospaceCharWidth 8) (js "a"))
                eq_refl eq_refl eq_refl) as [Hi [Ht _]].
  split; [exact Hi | exact Ht].
Defined.

(** C2, as the specification words it, fails: "a b c" plays at 200 ms a
    word and a frame comes 450 ms after the start.  The frame goes past the
    first record only; 250 ms are left, which cover the 200 ms of the second
    record, and the sequence is not used up. *)
Lemma loop_not_caught_up :
  isPlaying playingABC = true
  /\ isPaused playingABC = false
  /\ ~ caughtUp 450 (loop 450 playingABC).
Proof.
  split; [reflexivity|]. split; [reflexivity|].
  intros [H | [w [E L]]].
  - vm_compute in H. lia.
  - vm_compute in E. injection E as <-. vm_compute in L. discriminate L.
Qed.

(** ** The transport operations *)


Lemma handleResume_empty (s : State) :
  preprocessedWords s = [] ->
  isPlaying (handleResume s) = true
  /\ isPaused (handleResume s) = false
  /\ wordIndexRef (handleResume s) = 0%nat
  /\ currentWordIndex (handleResume s) = 0%nat.
Proof. intros E. unfold handleResume. rewrite E. repeat split. Qed.

(** C7: whatever the state, [handleStop] leaves both copies of the index at
    0, neither playing nor paused, and no displayed word; the playback
    effect then holds no pending frame. *)
Theorem handleStop_idle (s : State) :
  wordIndexRef (handleStop s) = 0%nat
  /\ currentWordIndex (handleStop s) = 0%nat
  /\ isPlaying (handleStop s) = false
  /\ isPaused (handleStop s) = false
  /\ readingState (handleStop s) = idle
  /\ currentWord (handleStop s) = None
  /\ (forall now, animationFrameRef (playbackEffect now (handleStop s)) = false).
Proof. repeat split. Qed.

(** In the middle of the second word of "a b c". *)
Example handleStop_mid_word :
  wordIndexRef (frames [210; 300] playingABC) = 1%nat
  /\ readingState (frames [210; 300] playingABC) = playing
  /\ readingState (handleStop (frames [210; 300] playingABC)) = idle
  /\ wordIndexRef (handleStop (frames [210; 300] playingABC)) = 0%nat.
Proof. vm_compute. repeat split. Qed.


End Scheduler.

(** * Further properties of the preprocessor *)

Section Preprocessor.

Local Open Scope float_scope.

(** The offsets are the same for all records of one font size, whatever the
    text and the rate: half the width of a character to the right for the
    text after the anchor, and as much to the left for the text before it;
    38.4 px (in binary64, 38.399999999999999) at the default size. *)
Theorem processText_offsets (text1 text2 : jsstring)
  (wpm1 wpm2 fontSize : float) (r1 r2 : PreprocessedWord) :
  In r1 (processText text1 wpm1 fontSize) ->
  In r2 (processText text2 wpm2 fontSize) ->
  afterOffset r1 = calculateMonospaceCharWidth fontSize / 2
  /\ beforeOffset r1 = - afterOffset r1
  /\ beforeOffset r1 = beforeOffset r2
  /\ afterOffset r1 = afterOffset r2
  /\ (fontSize = defaultFontSize -> afterOffset r1 = 38.399999999999999).
Proof.
  intros H1 H2.
  apply processText_In in H1. destruct H1 as [w1 [_ [_ E1]]].
  apply processText_In in H2. destruct H2 as [w2 [_ [_ E2]]].
  subst r1 r2. cbn [afterOffset beforeOffset preprocessWord].
  repeat split. intros ->. vm_compute. reflexivity.
Qed.

Lemma processText_offsets_witness :
  afterOffset readingRecord = 38.399999999999999
  /\ beforeOffset readingRecord = -38.399999999999999.
Proof.
  assert (H : In readingRecord (processText (js "speed reading") 300 8))
    by (vm_compute; right; left; reflexivity).
  destruct (processText_offsets _ _ _ _ _ _ _ H H) as [_ [Hb [_ [_ Ha]]]].
  split; [exact (Ha eq_refl)|].
  rewrite Hb, (Ha eq_refl). reflexivity.
Defined.

(** The text alone decides the words, the anchors and the three parts of
    the records: processing it at another rate or font size changes the
    durations and the offsets only, and keeps the number of records. *)
Theorem processText_rate_independent (text : jsstring)
  (wpm1 fontSize1 wpm2 fontSize2 : float) :
  map (fun r => (word r, anchorIndex r, beforeText r, anchorChar r,
                 afterText r))
      (processText text wpm1 fontSize1)
  = map (fun r => (word r, anchorIndex r, beforeText r, anchorChar r,
                   afterText r))
        (processText text wpm2 fontSize2)
  /\ length (processText text wpm1 fontSize1)
     = length (processText text wpm2 fontSize2).
Proof.
  unfold processText. cbv zeta. rewrite !map_map, !length_map.
  split; reflexivity.
Qed.

(** ** Texts put together *)

Lemma filter_one_app (t : jsstring) (l : list jsstring) :
  filter nonEmpty (t :: l) = filter nonEmpty [t] ++ filter nonEmpty l.
Proof. cbn [filter]. destruct (nonEmpty t); reflexivity. Qed.

Lemma words_app_from (a : jsstring) : forall (inSep : bool) piece c b,
  isWhiteSpace c = true ->
  (inSep = true -> piece = []) ->
  filter nonEmpty (split_from inSep piece (a ++ c :: b))
  = filter nonEmpty (split_from inSep piece a)
    ++ filter nonEmpty (split_from true [] b).
Proof.
  induction a as [|x a IH]; intros inSep piece c b Hc Hp; cbn [app split_from].
  - rewrite Hc. destruct inSep.
    + rewrite (Hp eq_refl). reflexivity.
    + apply filter_one_app.
  - destruct (isWhiteSpace x).
    + destruct inSep.
      * apply IH; auto.
      * cbn [filter]. destruct (nonEmpty (rev piece)); cbn [app];
          [f_equal|]; apply IH; auto.
    + apply IH; [exact Hc | discriminate].
Qed.

Lemma processText_app (a b : jsstring) (c : N) (baseWpm fontSize : float) :
  isWhiteSpace c = true ->
  processText (a ++ c :: b) baseWpm fontSize
  = processText a baseWpm fontSize ++ processText b baseWpm fontSize.
Proof.
  intros Hc. unfold processText. cbv zeta. rewrite <- map_app. f_equal.
  unfold split_ws at 1.
  rewrite (words_app_from a false [] c b Hc) by discriminate.
  rewrite <- (words_inSep b). reflexivity.
Qed.

(** ** Rates of the slider *)

Lemma multiplier_cases (w : jsstring) :
  getPunctuationMultiplier w = 1.3
  \/ getPunctuationMultiplier w = 1.15
  \/ getPunctuationMultiplier w = 1.0.
Proof.
  unfold getPunctuationMultiplier. destruct (lastChar w) as [c|]; [|auto].
  destruct (isSentenceEnd c); [auto|]. destruct (isClauseMark c); auto.
Qed.

Lemma rateCheck_all : forallb rateCheck (map Z.of_nat (seq 100 901)) = true.
Proof. vm_compute. reflexivity. Qed.

Lemma rateCheck_range (n : Z) : (100 <= n <= 1000)%Z -> rateCheck n = true.
Proof.
  intros Hn. pose proof rateCheck_all as H. rewrite forallb_forall in H.
  apply H. rewrite <- (Z2Nat.id n) by lia. apply in_map.
  apply in_seq. lia.
Qed.

(** Every whole rate from 100 to 1000 passes the test of the slider and is
    the rate of the reader afterwards; at such a rate every record of every
    text lasts 60 ms at least and 780 ms at most. *)
Theorem slider_rate_durations (n : Z) (s : State) (text : jsstring)
  (fontSize : float) (r : PreprocessedWord) :
  (100 <= n <= 1000)%Z ->
  In r (processText text (rateOf n) fontSize) ->
  wpm (Controls.handleWpmChange (rateOf n) s) = rateOf n
  /\ (60 <=? duration r) = true
  /\ (duration r <=? 780) = true.
Proof.
  intros Hn Hr. pose proof (rateCheck_range n Hn) as Hc.
  unfold rateCheck in Hc. cbv zeta in Hc. rewrite !andb_true_iff in Hc.
  destruct Hc as [[[[[Hnan Hmin] Hmax] [A1 B1]] [A2 B2]] [A3 B3]].
  split.
  - unfold Controls.handleWpmChange. rewrite Hnan, Hmin, Hmax. reflexivity.
  - apply processText_In in Hr. destruct Hr as [w [_ [_ E]]]. subst r.
    cbn [duration preprocessWord].
    destruct (multiplier_cases (trim w)) as [-> | [-> | ->]];
      split; assumption.
Qed.

Lemma slider_rate_durations_witness :
  wpm (Controls.handleWpmChange 300 initialState) = 300
  /\ (60 <=? duration readingRecord) = true
  /\ (duration readingRecord <=? 780) = true.
Proof.
  apply (slider_rate_durations 300 initialState (js "speed reading") 8
           readingRecord).
  - lia.
  - vm_compute. right. left. reflexivity.
Defined.

End Preprocessor.

(** * Further properties of the playback scheduler *)

Section Playback.

Local Open Scope float_scope.

(** Pasting appends: the records after a paste are the records of the text
    that was there followed by the records of the pasted text, at the
    current rate; the reader is idle at the first record and shows no
    word. *)
Theorem handlePaste_appends (pastedText : jsstring) (s : State) :
  preprocessedWords (handlePaste pastedText s)
  = processText (text s) (wpm s) defaultFontSize
    ++ processText pastedText (wpm s) defaultFontSize
  /\ readingState (handlePaste pastedText s) = idle
  /\ wordIndexRef (handlePaste pastedText s) = 0%nat
  /\ currentWordIndex (handlePaste pastedText s) = 0%nat
  /\ currentWord (handlePaste pastedText s) = None.
Proof.
  split; [|repeat split].
  unfold handlePaste. cbv zeta.
  cbn [preprocessedWords setPlayback setCurrentWord setIndex setText wpm].
  destruct (text s) as [|c t].
  - reflexivity.
  - apply (processText_app (c :: t) pastedText 32%N). reflexivity.
Qed.

(** ** Bounds *)

Lemma loop_index_bound (now : float) (s : State) :
  (wordIndexRef s <= length (preprocessedWords s))%nat ->
  (wordIndexRef (loop now s) <= length (preprocessedWords s))%nat.
Proof.
  intros H. destruct (loop_step now s) as [[Ei _] | [w [E [_ [Ei _]]]]].
  - rewrite Ei. exact H.
  - rewrite Ei. assert (nth_error (preprocessedWords s) (wordIndexRef s) <> None)
      as Hn by (rewrite E; discriminate).
    apply nth_error_Some in Hn. lia.
Qed.

Lemma loop_index_step (now : float) (s : State) :
  (wordIndexRef (loop now s) <= wordIndexRef s + 1)%nat.
Proof.
  destruct (loop_step now s) as [[Ei _] | [w [_ [_ [Ei _]]]]]; rewrite Ei; lia.
Qed.

(** The index of the loop never leaves the sequence, and a run of frames
    goes past one record per frame at most. *)
Theorem frames_bounds (samples : list float) (s : State) :
  (wordIndexRef s <= length (preprocessedWords s))%nat ->
  (wordIndexRef (frames samples s) <= length (preprocessedWords s))%nat
  /\ (wordIndexRef (frames samples s) <= wordIndexRef s + length samples)%nat.
Proof.
  revert s. induction samples as [|now samples IH]; intros s H; cbn [frames].
  - split; [exact H | lia].
  - destruct (animationFrameRef s); [|split; [exact H | lia]].
    destruct (IH (loop now s)) as [Hb Hc].
    + rewrite loop_words. apply loop_index_bound, H.
    + rewrite loop_words in Hb. split; [exact Hb|].
      pose proof (loop_index_step now s). cbn [length]. lia.
Qed.

Lemma frames_bounds_witness :
  (wordIndexRef (frames [450; 460; 470; 2000; 2010]%float playingABC) <= 3)%nat.
Proof.
  apply (frames_bounds [450; 460; 470; 2000; 2010] playingABC).
  vm_compute. lia.
Defined.

(** ** Frames that change nothing *)

(** Frames that come before the boundary of the current record leave the
    index, the boundary time and the displayed word as they are. *)
Theorem frames_before_boundary (samples : list float) (s : State)
  (w : PreprocessedWord) :
  isPlaying s = true -> isPaused s = false ->
  nth_error (preprocessedWords s) (wordIndexRef s) = Some w ->
  forallb (fun now => negb (duration w <=? now - lastTimeRef s)) samples
    = true ->
  wordIndexRef (frames samples s) = wordIndexRef s
  /\ currentWordIndex (frames samples s) = currentWordIndex s
  /\ lastTimeRef (frames samples s) = lastTimeRef s
  /\ currentWord (frames samples s) = currentWord s
  /\ readingState (frames samples s) = playing.
Proof.
  revert s. induction samples as [|now samples IH]; intros s Hp Hq E Hs;
    cbn [frames].
  - repeat split. unfold readingState. rewrite Hq, Hp. reflexivity.
  - cbn [forallb] in Hs. apply andb_prop in Hs. destruct Hs as [Hnow Hs].
    apply negb_true_iff in Hnow.
    destruct (animationFrameRef s).
    + rewrite (loop_playing now s w Hp Hq E), Hnow.
      apply (IH (setFrame true s)); assumption.
    + repeat split. unfold readingState. rewrite Hq, Hp. reflexivity.
Qed.

Lemma frames_before_boundary_witness :
  wordIndexRef (frames [16; 33; 50; 199] playingABC) = 0%nat
  /\ currentWord (frames [16; 33; 50; 199] playingABC) = None.
Proof.
  destruct (frames_before_boundary [16; 33; 50; 199] playingABC
              (preprocessWord 200 (calculateMonospaceCharWidth 8) (js "a"))
              eq_refl eq_refl eq_refl eq_refl) as [Hi [_ [_ [Hw _]]]].
  split; [exact Hi | exact Hw].
Defined.

(** While the reader is not playing, or is paused, no frame moves it: a
    callback that was still pending returns at once and requests no other,
    so the index, the boundary time, the displayed word and the playback
    flags stay. *)
Theorem frames_not_playing (samples : list float) (s : State) :
  isPlaying s = false \/ isPaused s = true ->
  wordIndexRef (frames samples s) = wordIndexRef s
  /\ currentWordIndex (frames samples s) = currentWordIndex s
  /\ lastTimeRef (frames samples s) = lastTimeRef s
  /\ currentWord (frames samples s) = currentWord s
  /\ isPlaying (frames samples s) = isPlaying s
  /\ isPaused (frames samples s) = isPaused s
  /\ (samples <> [] -> animationFrameRef (frames samples s) = false).
Proof.
  intros H.
  assert (Hg : negb (isPlaying s) || isPaused s = true).
  { destruct H as [-> | ->]; [reflexivity | apply orb_true_r]. }
  destruct samples as [|now samples]; cbn [frames].
  - repeat split. congruence.
  - destruct (animationFrameRef s) eqn:Hf.
    + unfold loop. rewrite Hg.
      destruct samples as [|now' samples]; cbn [frames setFrame animationFrameRef];
        repeat split.
    + repeat split. intros _. exact Hf.
Qed.

Lemma frames_not_playing_witness :
  wordIndexRef (frames [5000; 6000] (handlePause (frames [210] playingABC)))
  = 1%nat.
Proof.
  exact (proj1 (frames_not_playing [5000; 6000]
                  (handlePause (frames [210] playingABC))
                  (or_intror eq_refl))).
Defined.

(** ** The end of the sequence *)

Lemma loop_end (now : float) (s : State) :
  isPlaying s = true -> isPaused s = false ->
  (length (preprocessedWords s) <= wordIndexRef s)%nat ->
  loop now s = setFrame false (setPlayback false false s).
Proof.
  intros Hp Hq H. unfold loop. rewrite Hp, Hq. cbn [negb orb].
  destruct (Nat.leb_spec (length (preprocessedWords s)) (wordIndexRef s));
    [reflexivity | lia].
Qed.

(** The last record goes on display when its boundary is crossed, and the
    very next frame, whatever its clock reading, finds the sequence used up:
    it ends the playback, requests no further frame, and the display area
    shows no word any more. *)
Theorem last_record_one_frame (now now' : float) (s : State)
  (w : PreprocessedWord) :
  isPlaying s = true -> isPaused s = false ->
  nth_error (preprocessedWords s) (wordIndexRef s) = Some w ->
  (wordIndexRef s + 1)%nat = length (preprocessedWords s) ->
  (duration w <=? now - lastTimeRef s) = true ->
  displayedWord (loop now s) = Some w
  /\ displayedWord (loop now' (loop now s)) = None
  /\ readingState (loop now' (loop now s)) = idle
  /\ animationFrameRef (loop now' (loop now s)) = false
  /\ wordIndexRef (loop now' (loop now s)) = length (preprocessedWords s).
Proof.
  intros Hp Hq E Hlast Hd.
  rewrite (loop_playing now s w Hp Hq E), Hd.
  split.
  - unfold displayedWord. cbn. rewrite Hp. reflexivity.
  - rewrite loop_end.
    + cbn. repeat split. exact Hlast.
    + exact Hp.
    + exact Hq.
    + cbn. rewrite Hlast. apply Nat.le_refl.
Qed.

Lemma last_record_one_frame_witness :
  displayedWord (loop 700 (frames [210; 420] playingABC))
    = Some (preprocessWord 200 (calculateMonospaceCharWidth 8) (js "c"))
  /\ displayedWord (loop 716 (loop 700 (frames [210; 420] playingABC))) = None.
Proof.
  destruct (last_record_one_frame 700 716 (frames [210; 420] playingABC)
              (preprocessWord 200 (calculateMonospaceCharWidth 8) (js "c"))
              eq_refl eq_refl eq_refl eq_refl eq_refl) as [H1 [H2 _]].
  split; [exact H1 | exact H2].
Defined.

(** ** Pause, resume and start *)

(** Pausing and resuming in the middle of a sequence keeps the index, but
    the playback effect takes a new base line from the clock: the time that
    had gone by on the current record is given up, and the record is gone
    past only when its whole duration has gone by after the resume. *)
Theorem pause_resume_restarts_window (t now : float) (s : State)
  (w : PreprocessedWord) :
  nth_error (preprocessedWords s) (wordIndexRef s) = Some w ->
  readingState (handlePause s) = paused
  /\ animationFrameRef (playbackEffect t (handlePause s)) = false
  /\ readingState (playbackEffect t (handleResume (handlePause s))) = playing
  /\ wordIndexRef (playbackEffect t (handleResume (handlePause s)))
     = wordIndexRef s
  /\ lastTimeRef (playbackEffect t (handleResume (handlePause s))) = t
  /\ animationFrameRef (playbackEffect t (handleResume (handlePause s))) = true
  /\ wordIndexRef (loop now (playbackEffect t (handleResume (handlePause s))))
     = (if duration w <=? now - t
        then (wordIndexRef s + 1)%nat else wordIndexRef s).
Proof.
  intros E.
  assert (Hlt : (wordIndexRef s < length (preprocessedWords s))%nat).
  { apply nth_error_Some. rewrite E. discriminate. }
  assert (Hr : playbackEffect t (handleResume (handlePause s))
               = setFrame true (setLastTime t (setPlayback true false s))).
  { unfold handleResume, handlePause, playbackEffect.
    cbn [preprocessedWords wordIndexRef setPlayback isPlaying isPaused].
    destruct (Nat.eqb_spec (length (preprocessedWords s)) 0) as [E0|_]; [lia|].
    destruct (Nat.leb_spec (length (preprocessedWords s)) (wordIndexRef s));
      [lia|].
    cbn. destruct (Nat.eqb_spec (length (preprocessedWords s)) 0); [lia|].
    reflexivity. }
  rewrite Hr. split; [reflexivity|]. split; [reflexivity|].
  split; [reflexivity|]. split; [reflexivity|]. split; [reflexivity|].
  split; [reflexivity|].
  rewrite (loop_playing now
             (setFrame true (setLastTime t (setPlayback true false s))) w
             eq_refl eq_refl E). cbn.
  destruct (duration w <=? now - t); reflexivity.
Qed.

Lemma pause_resume_restarts_window_witness :
  lastTimeRef (frames [210; 390] playingABC) = 200
  /\ wordIndexRef
       (loop 1199
          (playbackEffect 1000
             (handleResume (handlePause (frames [210; 390] playingABC)))))
     = 1%nat.
Proof.
  split; [reflexivity|].
  destruct (pause_resume_restarts_window 1000 1199
              (frames [210; 390] playingABC)
              (preprocessWord 200 (calculateMonospaceCharWidth 8) (js "b"))
              eq_refl) as [_ [_ [_ [_ [_ [_ H]]]]]].
  exact H.
Defined.

(** Start on a sequence that was played to its end rewinds both copies of
    the index to 0 and plays; it does not clear the displayed word, so the
    last record is on display again until the first boundary is crossed. *)
Theorem handleStart_after_end (s : State) :
  preprocessedWords s <> [] ->
  (length (preprocessedWords s) <= wordIndexRef s)%nat ->
  wordIndexRef (handleStart s) = 0%nat
  /\ currentWordIndex (handleStart s) = 0%nat
  /\ readingState (handleStart s) = playing
  /\ displayedWord (handleStart s) = currentWord s.
Proof.
  intros Hne Hend. unfold handleStart.
  destruct (Nat.eqb_spec (length (preprocessedWords s)) 0) as [E|_].
  - destruct (preprocessedWords s); [congruence | discriminate E].
  - destruct (Nat.leb_spec (length (preprocessedWords s)) (wordIndexRef s));
      [|lia].
    repeat split. unfold displayedWord. cbn. destruct (currentWord s); reflexivity.
Qed.

Lemma handleStart_after_end_witness :
  readingState finishedABC = idle
  /\ wordIndexRef (handleStart finishedABC) = 0%nat
  /\ displayedWord (handleStart finishedABC)
     = Some (preprocessWord 200 (calculateMonospaceCharWidth 8) (js "c")).
Proof.
  split; [reflexivity|].
  assert (Hne : preprocessedWords finishedABC <> [])
    by (vm_compute; discriminate).
  assert (Hend : (length (preprocessedWords finishedABC)
                  <= wordIndexRef finishedABC)%nat)
    by (vm_compute; lia).
  destruct (handleStart_after_end _ Hne Hend) as [Hi [_ [_ Hd]]].
  split; [exact Hi|]. rewrite Hd. reflexivity.
Defined.

End Playback.

(** * The display of a word *)

Section Display.

Import WordDisplay.

Lemma produced_parts (r : PreprocessedWord) :
  produced r ->
  word r <> []
  /\ beforeText r = slice_to (word r) (calculateORP (word r))
  /\ anchorChar r = charAtOrEmpty (word r) (calculateORP (word r))
  /\ afterText r = slice_from (word r) (calculateORP (word r) + 1).
Proof.
  intros [text [baseWpm [fontSize H]]]. apply processText_In in H.
  destruct H as [w [Hw [Ew E]]].
  assert (Ht : trim w = w) by (apply trim_token, Hw).
  split.
  - rewrite Ew. unfold isToken in Hw. apply andb_prop in Hw.
    apply nonEmpty_true, Hw.
  - rewrite E. cbn [word beforeText anchorChar afterText preprocessWord].
    repeat split.
Qed.

Lemma effect_shows (r : PreprocessedWord) (d : Dom) :
  produced r -> showsPrevious d ->
  showsPrevious (effect r d) /\ previousWordRef (effect r d) = word r.
Proof.
  intros Hr Hd. destruct (produced_parts r Hr) as [Hne [Hb [Ha Hf]]].
  unfold effect. destruct (word r) as [|c t] eqn:E; [congruence|].
  destruct (list_eq_dec N.eq_dec (previousWordRef d) (c :: t)) as [Ep|_].
  - split; [exact Hd | exact Ep].
  - split; [|reflexivity]. unfold showsPrevious. cbv zeta.
    cbn [previousWordRef beforeContent anchorContent afterContent
         updateTextContent setPreviousWord].
    repeat split; assumption.
Qed.

Lemma shown_from (rs : list PreprocessedWord) : forall d,
  Forall produced rs -> showsPrevious d ->
  showsPrevious (fold_left (fun d w => effect w d) rs d).
Proof.
  induction rs as [|r rs IH]; intros d Hrs Hd; cbn [fold_left]; [exact Hd|].
  inversion Hrs as [|? ? Hr Hrest]; subst.
  apply IH; [exact Hrest | apply effect_shows; assumption].
Qed.

(** Whatever records of [processText] were shown since mounting, also the
    same word twice in a row, the three spans hold the three parts of the
    record shown last, and read together they spell its word. *)
Theorem shown_spells_word (rs : list PreprocessedWord)
  (r : PreprocessedWord) :
  Forall produced (rs ++ [r]) ->
  beforeContent (shown (rs ++ [r])) = beforeText r
  /\ anchorContent (shown (rs ++ [r])) = anchorChar r
  /\ afterContent (shown (rs ++ [r])) = afterText r
  /\ beforeContent (shown (rs ++ [r])) ++ anchorContent (shown (rs ++ [r]))
       ++ afterContent (shown (rs ++ [r])) = word r.
Proof.
  intros H. apply Forall_app in H. destruct H as [Hrs Hr].
  inversion Hr as [|? ? Hp _]; subst.
  assert (Hm : showsPrevious mounted) by (repeat split).
  pose proof (shown_from rs mounted Hrs Hm) as Hd.
  destruct (effect_shows r _ Hp Hd) as [[Hb [Ha Hf]] Ew].
  unfold shown. rewrite fold_left_app. cbn [fold_left].
  cbv zeta in Hb, Ha, Hf. rewrite Ew in Hb, Ha, Hf.
  destruct (produced_parts r Hp) as [Hne [Rb [Ra Rf]]].
  rewrite Hb, Ha, Hf, <- Rb, <- Ra, <- Rf.
  repeat split.
  destruct Hp as [text [baseWpm [fontSize Hin]]].
  apply processText_In in Hin. destruct Hin as [w [_ [_ E]]]. rewrite E.
  apply preprocessWord_partition.
Qed.

Lemma shown_spells_word_witness :
  anchorContent (shown (processText (js "a cat cat reading") 300 8)) = js "a"
  /\ beforeContent (shown (processText (js "a cat cat reading") 300 8))
     = js "re".
Proof.
  assert (H : Forall produced
                (firstn 3 (processText (js "a cat cat reading") 300 8)
                 ++ [readingRecord])).
  { apply Forall_forall. intros r Hr.
    exists (js "a cat cat reading"), 300%float, 8%float. exact Hr. }
  destruct (shown_spells_word _ _ H) as [Hb [Ha _]].
  split; [exact Ha | exact Hb].
Defined.

End Display.

(** * The reader driven through its controls *)

Section Reachable.

Local Open Scope float_scope.

Lemma processText_length (text : jsstring) (baseWpm fontSize : float) :
  length (processText text baseWpm fontSize)
  = length (filter nonEmpty (split_ws text)).
Proof.
  rewrite <- (processText_words text baseWpm fontSize).
  symmetry. apply length_map.
Qed.

Lemma invariant_initial : invariant initialState.
Proof.
  split; [reflexivity|]. split; [discriminate|].
  split; [apply Nat.le_0_l|]. split; [left; reflexivity|].
  split; reflexivity.
Qed.

Lemma invariant_loaded (t : jsstring) (s s' : State) :
  invariant s ->
  isPlaying s' = false -> isPaused s' = false ->
  wordIndexRef s' = 0%nat -> currentWordIndex s' = 0%nat ->
  text s' = t -> wpm s' = wpm s ->
  preprocessedWords s' = processText t (wpm s) defaultFontSize ->
  invariant s'.
Proof.
  intros (_ & _ & _ & _ & _ & I6) Hp Hq Hi Hc Ht Hw Hws. unfold invariant.
  rewrite Hp, Hq, Hi, Hc, Ht, Hw, Hws.
  split; [reflexivity|]. split; [discriminate|].
  split; [apply Nat.le_0_l|]. split; [left; reflexivity|].
  split; [apply processText_words | exact I6].
Qed.

Lemma invariant_flags (p q : bool) (i c : nat) (s s' : State) :
  invariant s ->
  isPlaying s' = p -> isPaused s' = q ->
  wordIndexRef s' = i -> currentWordIndex s' = c ->
  text s' = text s -> wpm s' = wpm s ->
  preprocessedWords s' = preprocessedWords s ->
  p && q = false ->
  (p || q = true -> length (preprocessedWords s) <> 0%nat) ->
  (i <= length (preprocessedWords s))%nat ->
  (c = 0%nat \/ (c < length (preprocessedWords s))%nat) ->
  invariant s'.
Proof.
  intros (_ & _ & _ & _ & I5 & I6) Hp Hq Hi Hc Ht Hw Hws H1 H2 H3 H4.
  unfold invariant. rewrite Hp, Hq, Hi, Hc, Ht, Hw, Hws.
  split; [exact H1|]. split; [exact H2|]. split; [exact H3|].
  split; [exact H4|]. split; [exact I5 | exact I6].
Qed.

Ltac keep_flags p q i c s :=
  apply (invariant_flags p q i c s);
  auto; try discriminate; try apply Nat.le_0_l; try lia.

Lemma dispatch_invariant (e : Event) (s : State) :
  invariant s -> enabled e s = true -> invariant (dispatch e s).
Proof.
  intros Hinv He. pose proof Hinv as (I1 & I2 & I3 & I4 & I5 & I6).
  destruct e; cbn [dispatch enabled] in *.
  - (* TextChange *)
    apply (invariant_loaded newText s); auto.
  - (* Paste *)
    eapply (invariant_loaded _ s); auto.
  - (* WpmSlider *)
    unfold Controls.handleWpmChange.
    destruct (negb (is_nan newWpm) && (Controls.WPM_MIN <=? newWpm)
              && (newWpm <=? Controls.WPM_MAX)) eqn:G; [|exact Hinv].
    rewrite !andb_true_iff in G. destruct G as [[_ Gmin] Gmax].
    unfold invariant. cbn [handleWpmChange isPlaying isPaused preprocessedWords
      wordIndexRef currentWordIndex text wpm].
    rewrite Gmin, Gmax.
    split; [exact I1|]. split; [exact I2|]. split; [exact I3|].
    split; [exact I4|]. split; [exact I5 | reflexivity].
  - (* ClickStart *)
    unfold Controls.startEnabled in He. rewrite !andb_true_iff in He.
    destruct He as [[_ _] Hne]. apply negb_true_iff in Hne.
    unfold handleStart. rewrite Hne.
    apply Nat.eqb_neq in Hne.
    destruct (Nat.leb_spec (length (preprocessedWords s)) (wordIndexRef s)).
    + keep_flags true false 0%nat 0%nat s.
    + keep_flags true false (wordIndexRef s) (currentWordIndex s) s.
  - (* ClickPause *)
    unfold Controls.pauseShown in He. apply andb_prop in He.
    destruct He as [Hp _].
    assert (Hne : length (preprocessedWords s) <> 0%nat)
      by (apply I2; rewrite Hp; reflexivity).
    keep_flags false true (wordIndexRef s) (currentWordIndex s) s.
  - (* ClickResume *)
    unfold Controls.resumeShown in He.
    assert (Hne : length (preprocessedWords s) <> 0%nat)
      by (apply I2; rewrite He; apply orb_true_r).
    unfold handleResume.
    destruct (Nat.eqb (length (preprocessedWords s)) 0
              || Nat.leb (length (preprocessedWords s)) (wordIndexRef s)).
    + keep_flags true false 0%nat 0%nat s.
    + keep_flags true false (wordIndexRef s) (currentWordIndex s) s.
  - (* ClickStop *)
    keep_flags false false 0%nat 0%nat s.
  - (* ClickReset *)
    keep_flags false false 0%nat 0%nat s.
  - (* Reprocess *)
    unfold reprocessEffect. destruct (text s) as [|c t] eqn:Et; [exact Hinv|].
    assert (Hlen : length (processText (c :: t) (wpm s) defaultFontSize)
                   = length (preprocessedWords s)).
    { rewrite processText_length, <- I5. apply length_map. }
    unfold invariant.
    cbn [setText isPlaying isPaused preprocessedWords wordIndexRef
         currentWordIndex text wpm].
    rewrite Hlen.
    split; [exact I1|]. split; [exact I2|]. split; [exact I3|].
    split; [exact I4|]. split; [apply processText_words | exact I6].
  - (* PlaybackEffect *)
    unfold playbackEffect.
    destruct (negb (isPlaying s) || isPaused s
              || Nat.eqb (length (preprocessedWords s)) 0);
      keep_flags (isPlaying s) (isPaused s) (wordIndexRef s)
        (currentWordIndex s) s.
  - (* Frame *)
    unfold loop.
    destruct (negb (isPlaying s) || isPaused s).
    { keep_flags (isPlaying s) (isPaused s) (wordIndexRef s)
        (currentWordIndex s) s. }
    destruct (Nat.leb (length (preprocessedWords s)) (wordIndexRef s)).
    { keep_flags false false (wordIndexRef s) (currentWordIndex s) s. }
    destruct (nth_error (preprocessedWords s) (wordIndexRef s)) as [w|] eqn:E;
      [|exact Hinv].
    assert (Hlt : (wordIndexRef s < length (preprocessedWords s))%nat).
    { apply nth_error_Some. rewrite E. discriminate. }
    destruct (duration w <=? now - lastTimeRef s).
    + keep_flags (isPlaying s) (isPaused s) (wordIndexRef s + 1)%nat
        (wordIndexRef s) s.
    + keep_flags (isPlaying s) (isPaused s) (wordIndexRef s)
        (currentWordIndex s) s.
Qed.

Lemma reachable_invariant (s : State) : reachable s -> invariant s.
Proof.
  induction 1 as [|e s _ IH He].
  - apply invariant_initial.
  - apply dispatch_invariant; assumption.
Qed.

Lemma run_reachable (events : list Event) : forall s,
  reachable s -> reachable (run events s).
Proof.
  induction events as [|e events IH]; intros s H; cbn [run]; [exact H|].
  destruct (enabled e s) eqn:He; [|exact H].
  apply IH. apply reachable_dispatch; assumption.
Qed.



Lemma session_reachable : reachable session.
Proof. apply run_reachable, reachable_initial. Qed.

(** Driven through its controls the reader is never playing and paused at
    once, and never playing or paused on an empty sequence: Pause, Resume
    and Stop are offered only while there are records. *)
Theorem reachable_playback_flags (s : State) :
  reachable s ->
  isPlaying s && isPaused s = false
  /\ (Controls.stopShown s = true -> preprocessedWords s <> [])
  /\ (Controls.pauseShown s = true -> preprocessedWords s <> [])
  /\ (Controls.resumeShown s = true -> preprocessedWords s <> []).
Proof.
  intros H. apply reachable_invariant in H.
  destruct H as (I1 & I2 & _).
  assert (Hne : isPlaying s || isPaused s = true -> preprocessedWords s <> []).
  { intros Hf E. apply (I2 Hf). rewrite E. reflexivity. }
  split; [exact I1|]. split; [exact Hne|]. split.
  - unfold Controls.pauseShown. intros Hp. apply andb_prop in Hp.
    apply Hne. rewrite (proj1 Hp). reflexivity.
  - unfold Controls.resumeShown. intros Hq. apply Hne. rewrite Hq.
    apply orb_true_r.
Qed.

Lemma reachable_playback_flags_witness :
  readingState session = paused /\ preprocessedWords session <> [].
Proof.
  split; [reflexivity|].
  exact (proj2 (proj2 (proj2 (reachable_playback_flags session
                                session_reachable))) eq_refl).
Defined.

(** Driven through its controls the reader keeps both copies of the index
    inside the sequence: the loop's index is the length at most, and while
    there are records the position that the progress bar prints, the
    displayed index plus one, is the number of records at most. *)
Theorem reachable_indices (s : State) :
  reachable s ->
  (wordIndexRef s <= length (preprocessedWords s))%nat
  /\ (preprocessedWords s <> [] ->
      (currentWordIndex s + 1 <= length (preprocessedWords s))%nat).
Proof.
  intros H. apply reachable_invariant in H.
  destruct H as (_ & _ & I3 & I4 & _).
  split; [exact I3|]. intros Hne.
  assert (length (preprocessedWords s) <> 0%nat).
  { intros E. apply Hne. destruct (preprocessedWords s); [reflexivity|].
    discriminate E. }
  lia.
Qed.

Lemma reachable_indices_witness :
  (wordIndexRef session <= 3)%nat /\ (currentWordIndex session + 1 <= 3)%nat.
Proof.
  destruct (reachable_indices session session_reachable) as [H1 H2].
  split; [exact H1|]. apply H2. vm_compute. discriminate.
Defined.



End Reachable.
